(** * vector_add.c: element-wise vector addition offloaded through OpenCL

    A shallow embedding of [src/vector_add/vector_add.c] and the properties
    of its single run.

    The host program is a straight line of statements; it is kept as the
    list [main_body], one entry per source statement, and run by [run_stmts]
    over an explicit state (host arrays, the [status] variable, standard
    output, and the device).  The OpenCL runtime is not part of the
    repository: every call into it is answered by an environment [Env] that
    fixes the status the call reports, the contents of memory nobody has
    written yet, and the order in which the device runs the work-items.  A
    call that reports an error has no effect; a call that reports success has
    the effect the OpenCL specification gives it.

    Not covered: [malloc] returning NULL (lines 48-50 do not test for it),
    and what the runtime does with a handle that an earlier failed call left
    unset. *)

From Stdlib Require Import Ascii String.
From stdpp Require Import base list numbers strings pretty.

Open Scope Z_scope.

(** ** Integers and text *)

(** [int] and [cl_int] are 32-bit two's complement. *)
Definition wrap32 (z : Z) : Z := (z + 2 ^ 31) `mod` 2 ^ 32 - 2 ^ 31.

Definition add32 (a b : Z) : Z := wrap32 (a + b).

(** The line feed that the C string literals spell as a backslash and n. *)
Definition nl : string := String "010"%char EmptyString.

(** ** Sizes (lines 42-45, 113) *)

Definition elements : nat := 2048.
Definition sizeof_int : nat := 4.
Definition datasize : nat := sizeof_int * elements.
Definition indexSpaceSize : nat := elements.
Definition workGroupSize : nat := 256.

(** ** Names of the host arrays and of the device buffers *)

Inductive HostArr := hA | hB | hC.
Inductive Buf := bufA | bufB | bufC.

Inductive MemFlags := CL_MEM_READ_ONLY | CL_MEM_WRITE_ONLY.

Global Instance HostArr_eq_dec : EqDecision HostArr.
Proof. solve_decision. Defined.
Global Instance Buf_eq_dec : EqDecision Buf.
Proof. solve_decision. Defined.
Global Instance MemFlags_eq_dec : EqDecision MemFlags.
Proof. solve_decision. Defined.

(** ** The calls into the OpenCL runtime, with the arguments that matter *)

Inductive ApiCall :=
| clGetPlatformIDs
| clGetDeviceIDs
| clCreateContext
| clCreateCommandQueueWithPropertiesAPPLE
| clCreateBuffer (b : Buf) (flags : MemFlags) (size : nat)
| clEnqueueWriteBuffer (b : Buf) (blocking : bool) (size : nat) (src : HostArr)
| clCreateProgramWithSource
| clBuildProgram
| clCreateKernel (name : string)
| clSetKernelArg (index : nat) (b : Buf)
| clEnqueueNDRangeKernel (work_dim global local : nat)
| clEnqueueReadBuffer (b : Buf) (blocking : bool) (size : nat) (dst : HostArr)
| clReleaseKernel
| clReleaseProgram
| clReleaseCommandQueue
| clReleaseMemObject (b : Buf)
| clReleaseContext.

Global Instance ApiCall_eq_dec : EqDecision ApiCall.
Proof. solve_decision. Defined.

(** ** The environment of one run *)

Record Env := mkEnv {
  (** the status each call reports *)
  api_status : ApiCall -> Z;
  (** what [malloc]'ed memory holds before the program writes it *)
  host_garbage : HostArr -> nat -> Z;
  (** what a fresh device buffer holds ([clCreateBuffer] with a NULL
      host pointer leaves it undefined) *)
  dev_garbage : Buf -> nat -> Z;
  (** the order in which the device runs the work-items of a dispatch *)
  work_order : list nat
}.

Definition uninit (n : nat) (g : nat -> Z) : list Z :=
  map (fun i => wrap32 (g i)) (seq 0 n).

(** ** The device *)

(** Commands waiting in the in-order command queue. *)
Inductive Cmd :=
| CmdWrite (b : Buf) (n : nat) (src : HostArr)
| CmdKernel (a0 a1 a2 : Buf) (global local : nat)
| CmdRead (b : Buf) (n : nat) (dst : HostArr).

Record DevMem := mkDevMem {
  memA : list Z;
  memB : list Z;
  memC : list Z
}.

Definition load (b : Buf) (m : DevMem) : list Z :=
  match b with bufA => memA m | bufB => memB m | bufC => memC m end.

Definition store (b : Buf) (v : list Z) (m : DevMem) : DevMem :=
  match b with
  | bufA => mkDevMem v (memB m) (memC m)
  | bufB => mkDevMem (memA m) v (memC m)
  | bufC => mkDevMem (memA m) (memB m) v
  end.

(** ** The kernel (lines 15-29)

    [vecadd] is the body of one work-item, [idx] being [get_global_id(0)]:
    [C[idx] = A[idx] + B[idx]]. *)
Definition vecadd (A B C : list Z) (idx : nat) : list Z :=
  <[idx := add32 (A !!! idx) (B !!! idx)]> C.

(** One work-item on device memory, the parameters bound to buffers
    [a0], [a1], [a2]. *)
Definition work_item (a0 a1 a2 : Buf) (m : DevMem) (idx : nat) : DevMem :=
  store a2 (vecadd (load a0 m) (load a1 m) (load a2 m) idx) m.

(** A dispatch runs every work-item once, in the order the device picks. *)
Definition run_kernel (order : list nat) (a0 a1 a2 : Buf) (m : DevMem) : DevMem :=
  foldl (work_item a0 a1 a2) m order.

(** The work-groups of a one-dimensional dispatch: group [g] holds the
    global indices [g * local, ..., g * local + local - 1]. *)
Definition work_groups (global local : nat) : list (list nat) :=
  map (fun g => seq (g * local) local) (seq 0 (global / local)).

(** ** Memory: the host arrays and the device

    The runtime reads and writes the host arrays it is handed pointers to,
    so they sit in one record with the device. *)

Record Memory := mkMemory {
  arrA : list Z;
  arrB : list Z;
  arrC : list Z;
  dmem : DevMem;
  (** the buffers bound to the three parameters of the kernel *)
  kargs : list (option Buf);
  queue : list Cmd
}.

Definition host (a : HostArr) (m : Memory) : list Z :=
  match a with hA => arrA m | hB => arrB m | hC => arrC m end.

Definition set_host (a : HostArr) (v : list Z) (m : Memory) : Memory :=
  match a with
  | hA => mkMemory v (arrB m) (arrC m) (dmem m) (kargs m) (queue m)
  | hB => mkMemory (arrA m) v (arrC m) (dmem m) (kargs m) (queue m)
  | hC => mkMemory (arrA m) (arrB m) v (dmem m) (kargs m) (queue m)
  end.

Definition set_dmem (d : DevMem) (m : Memory) : Memory :=
  mkMemory (arrA m) (arrB m) (arrC m) d (kargs m) (queue m).

Definition set_kargs (k : list (option Buf)) (m : Memory) : Memory :=
  mkMemory (arrA m) (arrB m) (arrC m) (dmem m) k (queue m).

Definition set_queue (q : list Cmd) (m : Memory) : Memory :=
  mkMemory (arrA m) (arrB m) (arrC m) (dmem m) (kargs m) q.

(** ** Effects of the runtime *)

(** A transfer of [n] ints from the start of [src] over the start of [dst];
    the destination keeps its size. *)
Definition copy_ints (n : nat) (src dst : list Z) : list Z :=
  list_inserts 0 (take n src) dst.

(** The device carries out one queued command.  An upload reads the host
    array when it is carried out, not when it was enqueued. *)
Definition run_cmd (e : Env) (m : Memory) (c : Cmd) : Memory :=
  match c with
  | CmdWrite b n src =>
      set_dmem (store b (copy_ints n (host src m) (load b (dmem m))) (dmem m)) m
  | CmdKernel a0 a1 a2 _ _ =>
      set_dmem (run_kernel (work_order e) a0 a1 a2 (dmem m)) m
  | CmdRead b n dst =>
      set_host dst (copy_ints n (load b (dmem m)) (host dst m)) m
  end.

(** The queue is in-order: a blocking call returns once everything enqueued
    before it, and its own command, has been carried out. *)
Definition finish (e : Env) (m : Memory) : Memory :=
  set_queue [] (foldl (run_cmd e) m (queue m)).

Definition enqueue (e : Env) (c : Cmd) (blocking : bool) (m : Memory) : Memory :=
  let m' := set_queue (queue m ++ [c]) m in
  if blocking then finish e m' else m'.

(** What a call does when it succeeds. *)
Definition effect (e : Env) (c : ApiCall) (m : Memory) : Memory :=
  match c with
  | clCreateBuffer b _ size =>
      set_dmem (store b (uninit (size / sizeof_int) (dev_garbage e b)) (dmem m)) m
  | clEnqueueWriteBuffer b blocking size src =>
      enqueue e (CmdWrite b (size / sizeof_int) src) blocking m
  | clSetKernelArg i b =>
      set_kargs (<[i := Some b]> (kargs m)) m
  | clEnqueueNDRangeKernel _ global local =>
      match kargs m with
      | [Some a0; Some a1; Some a2] => enqueue e (CmdKernel a0 a1 a2 global local) false m
      | _ => m
      end
  | clEnqueueReadBuffer b blocking size dst =>
      enqueue e (CmdRead b (size / sizeof_int) dst) blocking m
  | _ => m
  end.

(** ** The state of a run *)

Record State := mkState {
  mem : Memory;
  status : Z;
  stdout : string;
  (** the API calls made so far, oldest first *)
  trace : list ApiCall
}.

Definition set_mem (m : Memory) (s : State) : State :=
  mkState m (status s) (stdout s) (trace s).

Definition set_status (r : Z) (s : State) : State :=
  mkState (mem s) r (stdout s) (trace s).

Definition printf (text : string) (s : State) : State :=
  mkState (mem s) (status s) (stdout s +:+ text) (trace s).

(** One call: it is recorded, it reports the status the environment fixes,
    and it takes effect unless that status is an error.  Error statuses are
    the negative ones, as in [check]. *)
Definition api (e : Env) (c : ApiCall) (s : State) : Z * State :=
  let r := api_status e c in
  (r, mkState (if r <? 0 then mem s else effect e c (mem s))
              (status s) (stdout s) (trace s ++ [c])).

(** ** The host program *)

Inductive Outcome :=
| Running (s : State)
| Exited (code : Z) (s : State).

(** [check] (lines 31-36); [Exited (-1)] is [exit(-1)]. *)
Definition check (status : Z) (s : State) : Outcome :=
  if status <? 0 then Exited (-1) (printf ("ERROR. Exiting..." +:+ nl) s)
  else Running s.

Inductive Stmt :=
| Malloc (a : HostArr)
| InitInputs
| AssignCall (c : ApiCall)
| Call (c : ApiCall)
| Printf (text : string)
| Check
| PrintOutput
| Free (a : HostArr)
| Return (code : Z).

(** Body of the loop of lines 54-57. *)
Definition init_iter (m : Memory) (i : nat) : Memory :=
  set_host hB (<[i := 1]> (arrB m)) (set_host hA (<[i := 1]> (arrA m)) m).

(** Body of the loop of lines 135-138. *)
Definition print_iter (s : State) (i : nat) : State :=
  printf nl (printf (pretty (arrC (mem s) !!! i)) s).

(** The two loops run their index from [0] up to [n - 1]. *)
Definition init_loop (n : nat) (m : Memory) : Memory := foldl init_iter m (seq 0 n).
Definition print_loop (n : nat) (s : State) : State := foldl print_iter s (seq 0 n).

Definition exec (e : Env) (st : Stmt) (s : State) : Outcome :=
  match st with
  | Malloc a =>
      Running (set_mem (set_host a (uninit elements (host_garbage e a)) (mem s)) s)
  | InitInputs => Running (set_mem (init_loop elements (mem s)) s)
  | AssignCall c => let '(r, s') := api e c s in Running (set_status r s')
  | Call c => Running (snd (api e c s))
  | Printf text => Running (printf text s)
  | Check => check (status s) s
  | PrintOutput => Running (print_loop elements s)
  | Free _ => Running s
  | Return code => Exited code s
  end.

Fixpoint run_stmts (e : Env) (p : list Stmt) (s : State) : Outcome :=
  match p with
  | [] => Running s
  | st :: p' =>
      match exec e st s with
      | Running s' => run_stmts e p' s'
      | Exited code s' => Exited code s'
      end
  end.

(** [main], statement by statement (lines 38-146). *)
Definition main_body : list Stmt := [
  Malloc hA;
  Malloc hB;
  Malloc hC;
  InitInputs;
  AssignCall clGetPlatformIDs;
  AssignCall clGetDeviceIDs;
  AssignCall clCreateContext;
  AssignCall clCreateCommandQueueWithPropertiesAPPLE;
  AssignCall (clCreateBuffer bufA CL_MEM_READ_ONLY datasize);
  AssignCall (clCreateBuffer bufB CL_MEM_READ_ONLY datasize);
  AssignCall (clCreateBuffer bufC CL_MEM_WRITE_ONLY datasize);
  AssignCall (clEnqueueWriteBuffer bufA false datasize hA);
  AssignCall (clEnqueueWriteBuffer bufB false datasize hB);
  Printf ("Create a program with source code" +:+ nl);
  AssignCall clCreateProgramWithSource;
  Check;
  Printf ("Build (compile) the program for the device" +:+ nl);
  AssignCall clBuildProgram;
  Check;
  Printf ("Create the vector addition kernel" +:+ nl);
  AssignCall (clCreateKernel "vecadd");
  Check;
  Printf ("Set the kernel arguments" +:+ nl);
  AssignCall (clSetKernelArg 0 bufA);
  AssignCall (clSetKernelArg 1 bufB);
  AssignCall (clSetKernelArg 2 bufC);
  Check;
  Printf ("Execute the kernel" +:+ nl);
  AssignCall (clEnqueueNDRangeKernel 1 indexSpaceSize workGroupSize);
  Check;
  Printf ("The kernel has finished execution on the device" +:+ nl);
  Printf ("Read the device output buffer to the host output array" +:+ nl);
  AssignCall (clEnqueueReadBuffer bufC true datasize hC);
  Call clReleaseKernel;
  Call clReleaseProgram;
  Call clReleaseCommandQueue;
  Call (clReleaseMemObject bufA);
  Call (clReleaseMemObject bufB);
  Call (clReleaseMemObject bufC);
  Call clReleaseContext;
  PrintOutput;
  Free hA;
  Free hB;
  Free hC;
  Return 0
].

(** Before [main] starts nothing is allocated, nothing is printed, and the
    kernel has its three parameters unbound. *)
Definition initial : State :=
  mkState (mkMemory [] [] [] (mkDevMem [] [] []) [None; None; None] [])
          0 EmptyString [].

Definition main (e : Env) : Outcome := run_stmts e main_body initial.

Definition final_state (o : Outcome) : State :=
  match o with Running s => s | Exited _ s => s end.

Definition exit_code (o : Outcome) : option Z :=
  match o with Running _ => None | Exited code _ => Some code end.

(** ** What the program text fixes *)

(** The calls a piece of program makes when nothing aborts it. *)
Fixpoint calls_of (p : list Stmt) : list ApiCall :=
  match p with
  | [] => []
  | AssignCall c :: p' | Call c :: p' => c :: calls_of p'
  | _ :: p' => calls_of p'
  end.

(** The text its [printf] statements print. *)
Fixpoint printed (p : list Stmt) : string :=
  match p with
  | [] => EmptyString
  | Printf t :: p' => t +:+ printed p'
  | _ :: p' => printed p'
  end.

Definition is_output_loop (st : Stmt) : bool :=
  match st with PrintOutput => true | _ => false end.

Definition is_return (st : Stmt) : bool :=
  match st with Return _ => true | _ => false end.

(** The calls whose status reaches [check]: those assigned to [status] by
    the statement right before a [Check]. *)
Fixpoint checked (p : list Stmt) : list ApiCall :=
  match p with
  | [] => []
  | AssignCall c :: p' =>
      match p' with
      | Check :: _ => c :: checked p'
      | _ => checked p'
      end
  | _ :: p' => checked p'
  end.

Definition checked_calls : list ApiCall := checked main_body.

(** The calls whose status is assigned or dropped without reaching [check]. *)
Definition unchecked_calls : list ApiCall :=
  filter (fun c => c ∉ checked_calls) (calls_of main_body).

(** The exit code of a piece of program, from the statuses alone; [r] is the
    value of [status] on entry. *)
Fixpoint exit_of (e : Env) (p : list Stmt) (r : Z) : option Z :=
  match p with
  | [] => None
  | AssignCall c :: p' => exit_of e p' (api_status e c)
  | Check :: p' => if r <? 0 then Some (-1) else exit_of e p' r
  | Return code :: _ => Some code
  | _ :: p' => exit_of e p' r
  end.

(** The progress lines of a run that passes every [check]. *)
Definition progress_lines : string :=
  ("Create a program with source code" +:+ nl) +:+
  ("Build (compile) the program for the device" +:+ nl) +:+
  ("Create the vector addition kernel" +:+ nl) +:+
  ("Set the kernel arguments" +:+ nl) +:+
  ("Execute the kernel" +:+ nl) +:+
  ("The kernel has finished execution on the device" +:+ nl) +:+
  ("Read the device output buffer to the host output array" +:+ nl).

(** One output line per element: its decimal rendering and a line feed. *)
Definition output_line (c : Z) : string := pretty c +:+ nl.

Definition join (lines : list string) : string :=
  foldr String.append EmptyString lines.

(** The program point after the first [k] statements of [main]. *)
Definition state_after (e : Env) (k : nat) : State :=
  final_state (run_stmts e (take k main_body) initial).

(** Position of the first occurrence of a call in a trace. *)
Definition position (c : ApiCall) (t : list ApiCall) : option nat :=
  fst <$> list_find (fun x => x = c) t.

(** The host array a queued command writes, if any. *)
Definition download_target (c : Cmd) : option HostArr :=
  match c with CmdRead _ _ dst => Some dst | _ => None end.

(** No download into host array [a] is waiting in the queue. *)
Definition quiet (a : HostArr) (m : Memory) : Prop :=
  Forall (fun c => download_target c <> Some a) (queue m).

(** The statements that can write host array [a]: its allocation, the
    initialisation loop for the two inputs, and a download into it that the
    runtime accepts. *)
Definition writes_array (e : Env) (a : HostArr) (st : Stmt) : bool :=
  match st with
  | Malloc a' => bool_decide (a' = a)
  | InitInputs => bool_decide (a = hA \/ a = hB)
  | AssignCall c | Call c =>
      match c with
      | clEnqueueReadBuffer _ _ _ dst => bool_decide (dst = a) && negb (api_status e c <? 0)
      | _ => false
      end
  | _ => false
  end.

(** [main] in three parts: allocation and initialisation of the host
    arrays (lines 48-57), the offload (lines 60-133), and the report
    (lines 135-145). *)
Definition after_init : nat := 4.
Definition before_output : nat := 40.

Definition prologue : list Stmt := take after_init main_body.
Definition offload : list Stmt := drop after_init (take before_output main_body).
Definition report : list Stmt := drop before_output main_body.

(** * Proofs *)

(** The proofs never look inside the number 2048. *)
Opaque elements.

(** ** Text *)

Lemma append_cons (x : ascii) (a b : string) : String x a +:+ b = String x (a +:+ b).
Proof. reflexivity. Qed.

Lemma append_assoc (a b c : string) : (a +:+ b) +:+ c = a +:+ (b +:+ c).
Proof.
  induction a as [|x a IH]; [done |].
  by rewrite !append_cons, IH.
Qed.

Lemma append_nil_r (a : string) : a +:+ EmptyString = a.
Proof.
  induction a as [|x a IH]; [done |].
  by rewrite append_cons, IH.
Qed.

Lemma join_snoc (ls : list string) (l : string) : join (ls ++ [l]) = join ls +:+ l.
Proof.
  induction ls as [|x ls IH]; cbn [join foldr app].
  - apply append_nil_r.
  - fold (join (ls ++ [l])). fold (join ls). by rewrite IH, append_assoc.
Qed.

(** ** The two loops *)

Lemma print_iters_frame l s :
  mem (foldl print_iter s l) = mem s
  /\ status (foldl print_iter s l) = status s
  /\ trace (foldl print_iter s l) = trace s.
Proof.
  revert s. induction l as [|i l IH]; intros s; simpl; [done |].
  by destruct (IH (print_iter s i)) as (-> & -> & ->).
Qed.

(** The loop of lines 135-138 prints element [i] of [C] on a line of its
    own, for each [i] it runs through, in order. *)
Lemma print_iters_stdout l s :
  stdout (foldl print_iter s l)
  = stdout s +:+ join (map (fun i => output_line (arrC (mem s) !!! i)) l).
Proof.
  induction l as [|i l IH] using rev_ind.
  - cbn [foldl map join foldr]. by rewrite append_nil_r.
  - rewrite foldl_snoc, map_app. cbn [map]. rewrite join_snoc.
    unfold print_iter at 1. cbn [stdout printf mem].
    destruct (print_iters_frame l s) as (-> & _).
    rewrite IH. unfold output_line.
    by rewrite !append_assoc.
Qed.

Lemma init_iters_frame l m :
  arrC (foldl init_iter m l) = arrC m
  /\ dmem (foldl init_iter m l) = dmem m
  /\ kargs (foldl init_iter m l) = kargs m
  /\ queue (foldl init_iter m l) = queue m.
Proof.
  revert m. induction l as [|i l IH]; intros m; simpl; [done |].
  by destruct (IH (init_iter m i)) as (-> & -> & -> & ->).
Qed.

Lemma init_iters_length l m :
  length (arrA (foldl init_iter m l)) = length (arrA m)
  /\ length (arrB (foldl init_iter m l)) = length (arrB m).
Proof.
  revert m. induction l as [|i l IH]; intros m; simpl; [done |].
  destruct (IH (init_iter m i)) as (-> & ->).
  cbn [init_iter arrA arrB set_host]. by rewrite !length_insert.
Qed.

(** After the loop of lines 54-57 both inputs hold [n] ones. *)
Lemma init_loop_spec n m :
  length (arrA m) = n -> length (arrB m) = n ->
  arrA (init_loop n m) = replicate n 1 /\ arrB (init_loop n m) = replicate n 1.
Proof.
  intros HA HB. unfold init_loop.
  assert (forall k, (k <= n)%nat ->
            arrA (foldl init_iter m (seq 0 k)) = replicate k 1 ++ drop k (arrA m)
            /\ arrB (foldl init_iter m (seq 0 k)) = replicate k 1 ++ drop k (arrB m))
    as Hk.
  { induction k as [|k IH]; intros Hle; [done |].
    destruct IH as [IHA IHB]; [lia |].
    rewrite seq_S, foldl_snoc. cbn [init_iter arrA arrB set_host]. rewrite IHA, IHB.
    assert (forall l : list Z, length l = n ->
              <[k := 1]> (replicate k 1 ++ drop k l) = replicate (S k) 1 ++ drop (S k) l)
      as Hins.
    { intros l Hl.
      destruct (lookup_lt_is_Some_2 l k) as [x Hx]; [lia |].
      rewrite insert_app_r_alt, length_replicate, Nat.sub_diag
        by (rewrite length_replicate; lia).
      rewrite (drop_S l x k Hx). cbn [insert list_insert].
      rewrite replicate_S_end, <-app_assoc. done. }
    by rewrite !Hins. }
  destruct (Hk n) as [-> ->]; [lia |].
  rewrite !drop_ge, !app_nil_r by lia. done.
Qed.

(** ** Running a statement list *)

Lemma run_cons e st p s :
  run_stmts e (st :: p) s
  = match exec e st s with
    | Running s' => run_stmts e p s'
    | Exited code s' => Exited code s'
    end.
Proof. reflexivity. Qed.

Lemma run_nil e s : run_stmts e [] s = Running s.
Proof. reflexivity. Qed.

Lemma run_Malloc e a p s :
  run_stmts e (Malloc a :: p) s
  = run_stmts e p (set_mem (set_host a (uninit elements (host_garbage e a)) (mem s)) s).
Proof. rewrite run_cons. reflexivity. Qed.

Lemma run_InitInputs e p s :
  run_stmts e (InitInputs :: p) s = run_stmts e p (set_mem (init_loop elements (mem s)) s).
Proof. rewrite run_cons. reflexivity. Qed.

Lemma run_AssignCall e c p s :
  run_stmts e (AssignCall c :: p) s
  = run_stmts e p
      (mkState (if api_status e c <? 0 then mem s else effect e c (mem s))
               (api_status e c) (stdout s) (trace s ++ [c])).
Proof. rewrite run_cons. reflexivity. Qed.

Lemma run_Call e c p s :
  run_stmts e (Call c :: p) s
  = run_stmts e p
      (mkState (if api_status e c <? 0 then mem s else effect e c (mem s))
               (status s) (stdout s) (trace s ++ [c])).
Proof. rewrite run_cons. reflexivity. Qed.

Lemma run_Printf e t p s :
  run_stmts e (Printf t :: p) s = run_stmts e p (printf t s).
Proof. rewrite run_cons. reflexivity. Qed.

Lemma run_Check_pass e p s :
  0 <= status s -> run_stmts e (Check :: p) s = run_stmts e p s.
Proof.
  intros Hr. rewrite run_cons. cbn [exec]. unfold check.
  by rewrite (proj2 (Z.ltb_ge (status s) 0) Hr).
Qed.

Lemma run_PrintOutput e p s :
  run_stmts e (PrintOutput :: p) s = run_stmts e p (print_loop elements s).
Proof. rewrite run_cons. reflexivity. Qed.

Lemma run_Free e a p s : run_stmts e (Free a :: p) s = run_stmts e p s.
Proof. rewrite run_cons. reflexivity. Qed.

Lemma run_Return e code p s : run_stmts e (Return code :: p) s = Exited code s.
Proof. rewrite run_cons. reflexivity. Qed.

Lemma run_app e p q s :
  run_stmts e (p ++ q) s
  = match run_stmts e p s with
    | Running s' => run_stmts e q s'
    | Exited code s' => Exited code s'
    end.
Proof.
  revert s. induction p as [|st p IH]; intros s; [done |].
  rewrite <-app_comm_cons, !run_cons.
  destruct (exec e st s); [apply IH | done].
Qed.

Lemma Running_inj s s' : Running s = Running s' -> s = s'.
Proof. intros H. exact (f_equal final_state H). Qed.

Lemma outcome_of_exit_code o code :
  exit_code o = Some code -> o = Exited code (final_state o).
Proof. destruct o; cbn [exit_code final_state]; [done | by intros [= ->]]. Qed.

(** ** The control state along a run

    Only the host program touches [status], [stdout] and the record of
    calls. *)

Definition ctl (s : State) : Z * string * list ApiCall :=
  (status s, stdout s, trace s).

(** What one statement that does not stop the run does to the control
    state. *)
Lemma exec_ctl e st s s1 :
  exec e st s = Running s1 ->
  ctl s1 = match st with
           | AssignCall c => (api_status e c, stdout s, trace s ++ [c])
           | Call c => (status s, stdout s, trace s ++ [c])
           | Printf t => (status s, stdout s +:+ t, trace s)
           | PrintOutput => (status s, stdout (print_loop elements s), trace s)
           | _ => ctl s
           end.
Proof.
  destruct st as [a | | c | c | t | | | a | code]; cbn [exec].
  - by intros <-%Running_inj.
  - by intros <-%Running_inj.
  - by intros <-%Running_inj.
  - by intros <-%Running_inj.
  - by intros <-%Running_inj.
  - unfold check. destruct (status s <? 0); [done |]. by intros <-%Running_inj.
  - intros <-%Running_inj. unfold ctl, print_loop.
    by destruct (print_iters_frame (seq 0 elements) s) as (_ & -> & ->).
  - by intros <-%Running_inj.
  - done.
Qed.

(** The exit code depends on the statuses of the calls only. *)
Lemma run_exit_code e p s : exit_code (run_stmts e p s) = exit_of e p (status s).
Proof.
  revert s. induction p as [|st p IH]; intros s; [done |].
  rewrite run_cons.
  destruct st as [a | | c | c | t | | | a | code]; cbn [exec exit_of api].
  - by rewrite IH.
  - by rewrite IH.
  - by rewrite IH.
  - by rewrite IH.
  - by rewrite IH.
  - unfold check. destruct (status s <? 0); [done | apply IH].
  - rewrite IH. unfold print_loop.
    by destruct (print_iters_frame (seq 0 elements) s) as (_ & -> & _).
  - by rewrite IH.
  - done.
Qed.

(** A piece of program that runs through has made all its calls, in order,
    and printed all its [printf] texts. *)
Lemma run_through e p s s' :
  run_stmts e p s = Running s' ->
  trace s' = trace s ++ calls_of p
  /\ (Forall (fun st => is_output_loop st = false) p ->
      stdout s' = stdout s +:+ printed p).
Proof.
  revert s. induction p as [|st p IH]; intros s.
  - intros <-%Running_inj.
    split; [by rewrite app_nil_r | intros _; by rewrite append_nil_r].
  - rewrite run_cons.
    destruct (exec e st s) as [s1 | code s1] eqn:Hst; [|done].
    apply exec_ctl in Hst.
    assert (trace s1 = (ctl s1).2) as Ht1 by reflexivity.
    assert (stdout s1 = (ctl s1).1.2) as Ho1 by reflexivity.
    rewrite Hst in Ht1, Ho1. clear Hst.
    intros Hrun. destruct (IH s1 Hrun) as [IHt IHo]. split.
    + rewrite IHt, Ht1.
      destruct st; cbn [calls_of snd ctl]; try done; by rewrite <-app_assoc.
    + intros Hall. inversion Hall as [|? ? Hhd Htl]; subst.
      rewrite (IHo Htl), Ho1.
      destruct st; try discriminate Hhd; cbn [printed fst snd ctl]; try done.
      by rewrite append_assoc.
Qed.

(** Whatever the outcome, the calls made are calls of the program text. *)
Lemma trace_within e p s c :
  c ∈ trace (final_state (run_stmts e p s)) -> c ∈ trace s \/ c ∈ calls_of p.
Proof.
  revert s. induction p as [|st p IH]; intros s; [by left |].
  rewrite run_cons.
  destruct (exec e st s) as [s1 | code s1] eqn:Hst.
  - apply exec_ctl in Hst.
    assert (trace s1 = (ctl s1).2) as Ht1 by reflexivity.
    rewrite Hst in Ht1. clear Hst.
    intros [Hc | Hc]%IH.
    + rewrite Ht1 in Hc.
      destruct st; cbn [snd ctl] in Hc; try (by left);
        apply elem_of_app in Hc as [Hc | ->%list_elem_of_singleton];
        try (by left); right; cbn [calls_of]; apply list_elem_of_here.
    + right. destruct st; cbn [calls_of]; try done; by apply list_elem_of_further.
  - cbn [final_state]. left.
    destruct st; cbn [exec] in Hst; try done.
    + unfold check in Hst. destruct (status s <? 0); [|done].
      apply (f_equal final_state) in Hst. cbn [final_state] in Hst. by subst s1.
    + apply (f_equal final_state) in Hst. cbn [final_state] in Hst. by subst s1.
Qed.

(** Only [return] gives an exit code other than -1. *)
Lemma exit_of_without_return e p r code :
  Forall (fun st => is_return st = false) p ->
  exit_of e p r = Some code -> code = -1.
Proof.
  intros Hp. revert r. induction Hp as [|st p Hst _ IH]; intros r; [done |].
  destruct st; cbn [exit_of]; try apply IH; try done.
  destruct (r <? 0); [by intros [= <-] | apply IH].
Qed.

(** ** What the device does to the host arrays *)

Lemma run_cmd_queue e m c : queue (run_cmd e m c) = queue m.
Proof. destruct c as [b n src | a0 a1 a2 g l | b n dst]; try done. by destruct dst. Qed.

Lemma run_cmd_host e m c a :
  download_target c <> Some a -> host a (run_cmd e m c) = host a m.
Proof.
  destruct c as [b n src | a0 a1 a2 g l | b n dst]; cbn [download_target run_cmd].
  - by destruct a.
  - by destruct a.
  - intros Hne. destruct dst, a; done.
Qed.

Lemma run_cmd_host_length e m c a :
  length (host a (run_cmd e m c)) = length (host a m).
Proof.
  destruct c as [b n src | a0 a1 a2 g l | b n dst]; cbn [run_cmd].
  - by destruct a.
  - by destruct a.
  - destruct dst, a; cbn [host set_host arrA arrB arrC]; try done;
      unfold copy_ints; apply length_inserts.
Qed.

Lemma run_cmds_host e q m a :
  Forall (fun c => download_target c <> Some a) q ->
  host a (foldl (run_cmd e) m q) = host a m.
Proof.
  intros Hq. revert m. induction Hq as [|c q Hc _ IH]; intros m; simpl; [done |].
  by rewrite IH, run_cmd_host.
Qed.

Lemma run_cmds_host_length e q m a :
  length (host a (foldl (run_cmd e) m q)) = length (host a m).
Proof.
  revert m. induction q as [|c q IH]; intros m; simpl; [done |].
  by rewrite IH, run_cmd_host_length.
Qed.

Lemma set_queue_host a q m : host a (set_queue q m) = host a m.
Proof. by destruct a. Qed.

Lemma enqueue_host_length e c blocking m a :
  length (host a (enqueue e c blocking m)) = length (host a m).
Proof.
  unfold enqueue. destruct blocking; [|apply (f_equal length), set_queue_host].
  unfold finish. by rewrite set_queue_host, run_cmds_host_length, set_queue_host.
Qed.

Lemma enqueue_frame e c blocking m a :
  download_target c <> Some a -> quiet a m ->
  host a (enqueue e c blocking m) = host a m /\ quiet a (enqueue e c blocking m).
Proof.
  intros Hc Hq. unfold enqueue. destruct blocking.
  - unfold finish. split; [|by apply Forall_nil].
    rewrite set_queue_host, run_cmds_host, set_queue_host; [done |].
    cbn [queue set_queue]. apply Forall_app. split; [done | by constructor].
  - split; [apply set_queue_host |].
    unfold quiet. cbn [queue set_queue].
    apply Forall_app. split; [done | by constructor].
Qed.

Lemma effect_host_length e c m a :
  length (host a (effect e c m)) = length (host a m).
Proof.
  destruct c; cbn [effect]; try done; try apply enqueue_host_length;
    try by destruct a.
  destruct (kargs m) as [|[a0|] [|[a1|] [|[a2|] [|? ?]]]]; try done.
Qed.

(** A successful call other than a download into [a] leaves host array [a]
    as it is, and no such download appears in the queue. *)
Lemma effect_frame e c m a :
  (forall b blocking size, c <> clEnqueueReadBuffer b blocking size a) ->
  quiet a m ->
  host a (effect e c m) = host a m /\ quiet a (effect e c m).
Proof.
  intros Hc Hq. destruct c; cbn [effect]; try done; try by destruct a.
  - by apply enqueue_frame.
  - destruct (kargs m) as [|[a0|] [|[a1|] [|[a2|] [|? ?]]]]; try done.
    by apply enqueue_frame.
  - apply enqueue_frame; [|done]. cbn [download_target]. intros [= ->].
    by eapply Hc.
Qed.

(** The memory a call leaves behind. *)
Definition after_call (e : Env) (c : ApiCall) (m : Memory) : Memory :=
  if api_status e c <? 0 then m else effect e c m.

Lemma after_call_host_length e c m a :
  length (host a (after_call e c m)) = length (host a m).
Proof.
  unfold after_call. destruct (api_status e c <? 0); [done |].
  apply effect_host_length.
Qed.

Lemma after_call_frame e c m a :
  (forall b blocking size,
     c = clEnqueueReadBuffer b blocking size a -> api_status e c < 0) ->
  quiet a m ->
  host a (after_call e c m) = host a m /\ quiet a (after_call e c m).
Proof.
  intros Hc Hq. unfold after_call.
  destruct (api_status e c <? 0) eqn:Hr; [by split |].
  apply effect_frame; [|exact Hq].
  intros b blocking size Heq. specialize (Hc b blocking size Heq).
  apply Z.ltb_ge in Hr. lia.
Qed.

(** ** The host arrays along a run *)

(** A statement that cannot write host array [a] leaves it as it is. *)
Lemma exec_frame a e st s :
  writes_array e a st = false -> quiet a (mem s) ->
  host a (mem (final_state (exec e st s))) = host a (mem s)
  /\ quiet a (mem (final_state (exec e st s))).
Proof.
  intros Hw Hq.
  assert (forall c, writes_array e a (Call c) = false ->
            forall b blocking size,
              c = clEnqueueReadBuffer b blocking size a -> api_status e c < 0) as Hcall.
  { intros c Hc b blocking size ->. cbn [writes_array] in Hc.
    rewrite bool_decide_eq_true_2 in Hc by reflexivity. cbn [andb] in Hc.
    apply negb_false_iff, Z.ltb_lt in Hc. exact Hc. }
  destruct st as [a' | | c | c | t | | | a' | code]; cbn [exec final_state api mem set_mem set_status snd].
  - cbn [writes_array] in Hw. apply bool_decide_eq_false in Hw.
    split; [by destruct a', a | by destruct a'].
  - cbn [writes_array] in Hw. apply bool_decide_eq_false in Hw.
    unfold init_loop, quiet.
    destruct (init_iters_frame (seq 0 elements) (mem s)) as (HC & _ & _ & ->).
    split; [|exact Hq].
    destruct a; [destruct Hw; by left | destruct Hw; by right | exact HC].
  - apply (after_call_frame e c (mem s) a); [by apply Hcall | exact Hq].
  - apply (after_call_frame e c (mem s) a); [by apply Hcall | exact Hq].
  - by split.
  - unfold check. destruct (status s <? 0); cbn [final_state]; by split.
  - unfold print_loop.
    destruct (print_iters_frame (seq 0 elements) s) as (-> & _). by split.
  - by split.
  - by split.
Qed.

Lemma run_frame a e p s :
  Forall (fun st => writes_array e a st = false) p -> quiet a (mem s) ->
  host a (mem (final_state (run_stmts e p s))) = host a (mem s).
Proof.
  intros Hp. revert s. induction Hp as [|st p Hst _ IH]; intros s Hq; [done |].
  rewrite run_cons. destruct (exec_frame a e st s Hst Hq) as [Hh Hq'].
  destruct (exec e st s) as [s1 | code s1]; cbn [final_state] in *; [|done].
  by rewrite IH.
Qed.

Lemma length_uninit n g : length (uninit n g) = n.
Proof. unfold uninit. by rewrite length_map, length_seq. Qed.

(** Once allocated, a host array keeps its [elements] entries. *)
Lemma exec_length a e st s :
  length (host a (mem s)) = elements ->
  length (host a (mem (final_state (exec e st s)))) = elements.
Proof.
  intros Hl.
  destruct st as [a' | | c | c | t | | | a' | code]; cbn [exec final_state api mem set_mem set_status snd].
  - destruct a', a; cbn [host set_host arrA arrB arrC] in *; try exact Hl;
      apply length_uninit.
  - unfold init_loop.
    destruct (init_iters_frame (seq 0 elements) (mem s)) as (HC & _).
    destruct (init_iters_length (seq 0 elements) (mem s)) as [HA HB].
    destruct a; cbn [host] in *; congruence.
  - rewrite <-Hl. apply (after_call_host_length e c (mem s) a).
  - rewrite <-Hl. apply (after_call_host_length e c (mem s) a).
  - exact Hl.
  - unfold check. destruct (status s <? 0); cbn [final_state]; exact Hl.
  - unfold print_loop.
    destruct (print_iters_frame (seq 0 elements) s) as (-> & _). exact Hl.
  - exact Hl.
  - exact Hl.
Qed.

Lemma run_length a e p s :
  length (host a (mem s)) = elements ->
  length (host a (mem (final_state (run_stmts e p s)))) = elements.
Proof.
  revert s. induction p as [|st p IH]; intros s Hl; [done |].
  rewrite run_cons. pose proof (exec_length a e st s Hl) as Hst.
  destruct (exec e st s) as [s1 | code s1]; cbn [final_state] in *; [|done].
  by apply IH.
Qed.

(** ** The shape of a run *)

Lemma main_body_split : main_body = prologue ++ offload ++ report.
Proof. reflexivity. Qed.

Lemma prologue_eq : prologue = [Malloc hA; Malloc hB; Malloc hC; InitInputs].
Proof. reflexivity. Qed.

Lemma report_eq : report = [PrintOutput; Free hA; Free hB; Free hC; Return 0].
Proof. reflexivity. Qed.

Lemma offload_no_return : Forall (fun st => is_return st = false) (prologue ++ offload).
Proof. repeat constructor. Qed.

Lemma offload_no_output : Forall (fun st => is_output_loop st = false) (prologue ++ offload).
Proof. repeat constructor. Qed.

Lemma checked_calls_eq :
  checked_calls
  = [clCreateProgramWithSource; clBuildProgram; clCreateKernel "vecadd";
     clSetKernelArg 2 bufC; clEnqueueNDRangeKernel 1 indexSpaceSize workGroupSize].
Proof. reflexivity. Qed.

(** The memory in which the prologue leaves the program. *)
Definition initialised_mem (e : Env) : Memory :=
  init_loop elements
    (set_host hC (uninit elements (host_garbage e hC))
       (set_host hB (uninit elements (host_garbage e hB))
          (set_host hA (uninit elements (host_garbage e hA)) (mem initial)))).

Definition initialised (e : Env) : State := set_mem (initialised_mem e) initial.

Lemma run_prologue e : run_stmts e prologue initial = Running (initialised e).
Proof.
  rewrite prologue_eq, !run_Malloc, run_InitInputs, run_nil. reflexivity.
Qed.

Lemma initialised_spec e :
  initialised_mem e
  = mkMemory (replicate elements 1) (replicate elements 1)
             (uninit elements (host_garbage e hC))
             (mkDevMem [] [] []) [None; None; None] [].
Proof.
  unfold initialised_mem.
  set (m0 := set_host hC _ _).
  destruct (init_loop_spec elements m0) as [HA HB];
    [subst m0; cbn [arrA arrB set_host]; apply length_uninit ..|].
  destruct (init_iters_frame (seq 0 elements) m0) as (HC & Hd & Hk & Hq).
  fold (init_loop elements m0) in HC, Hd, Hk, Hq.
  destruct (init_loop elements m0) as [a b c d k q].
  cbn [arrA arrB arrC dmem kargs queue] in *. subst a b c d k q. reflexivity.
Qed.

Lemma initial_lengths e a : length (host a (mem (initialised e))) = elements.
Proof.
  cbn [initialised mem set_mem]. rewrite initialised_spec.
  destruct a; cbn [host arrA arrB arrC].
  - apply length_replicate.
  - apply length_replicate.
  - apply length_uninit.
Qed.

(** A run that ends with exit code 0 went through the whole offload and
    ended after the output loop. *)
Lemma successful_run e :
  exit_code (main e) = Some 0 ->
  exists s1,
    run_stmts e offload (initialised e) = Running s1
    /\ final_state (main e) = print_loop elements s1.
Proof.
  unfold main. rewrite main_body_split, run_app, run_prologue, run_app.
  destruct (run_stmts e offload (initialised e)) as [s1 | code s1] eqn:Hrun.
  - rewrite report_eq, run_PrintOutput, !run_Free, run_Return.
    intros _. exists s1. split; reflexivity.
  - cbn [exit_code]. intros [= ->].
    pose proof (run_exit_code e (prologue ++ offload) initial) as Hc.
    rewrite run_app, run_prologue, Hrun in Hc. cbn [exit_code] in Hc. symmetry in Hc.
    by apply (exit_of_without_return _ _ _ _ offload_no_return) in Hc.
Qed.

(** In a run that ends with exit code 0 every call of [main] was made, in
    program order. *)
Lemma successful_run_trace e :
  exit_code (main e) = Some 0 -> trace (final_state (main e)) = calls_of main_body.
Proof.
  intros (s1 & Hrun & ->)%successful_run.
  destruct (run_through _ _ _ _ Hrun) as [Ht _].
  unfold print_loop.
  destruct (print_iters_frame (seq 0 elements) s1) as (_ & _ & ->).
  rewrite Ht. reflexivity.
Qed.

(** Its memory is the one the offload left. *)
Lemma successful_run_mem e :
  exit_code (main e) = Some 0 ->
  mem (final_state (main e))
  = mem (final_state (run_stmts e offload (initialised e))).
Proof.
  intros (s1 & Hrun & ->)%successful_run. rewrite Hrun.
  unfold print_loop.
  by destruct (print_iters_frame (seq 0 elements) s1) as (-> & _).
Qed.

(** ** Environments used as examples *)

(** Every call succeeds; untouched memory holds zeros; the work-items
    run in index order. *)
Definition env_ok : Env :=
  mkEnv (fun _ => 0) (fun _ _ => 0) (fun _ _ => 0) (seq 0 elements).

(** ** C9: [check] lets every non-negative status through *)

(** C9. [check] aborts on strictly negative statuses only: called with a
    status that is zero or positive it returns without printing or changing
    anything, and a run standing at a [check] with such a value in [status]
    goes on with the statement that follows. *)
Theorem check_returns_on_nonnegative (r : Z) (s : State) :
  0 <= r ->
  check r s = Running s
  /\ forall e rest,
       run_stmts e (Check :: rest) (set_status r s)
       = run_stmts e rest (set_status r s).
Proof.
  intros Hr.
  assert ((r <? 0) = false) as Hlt by (apply Z.ltb_ge; lia).
  split.
  - unfold check. by rewrite Hlt.
  - intros e rest. by apply run_Check_pass.
Qed.

Lemma check_returns_on_nonnegative_witness :
  check 7 initial = Running initial
  /\ forall e rest,
       run_stmts e (Check :: rest) (set_status 7 initial)
       = run_stmts e rest (set_status 7 initial).
Proof. apply (check_returns_on_nonnegative 7 initial). lia. Defined.

(** The other direction: a negative status stops the run there, with the
    error line printed and exit code -1. *)
Lemma check_aborts_on_negative (r : Z) (s : State) :
  r < 0 -> check r s = Exited (-1) (printf ("ERROR. Exiting..." +:+ nl) s).
Proof. intros Hr. unfold check. by rewrite (proj2 (Z.ltb_lt r 0) Hr). Qed.

(** ** C5: exit codes *)

(** C5. Every run ends, and its exit code is 0 when none of the five
    checked calls reports a negative status and -1 when one of them does. *)
Theorem exit_code_of_main (e : Env) :
  exit_code (main e)
  = Some (if forallb (fun c => 0 <=? api_status e c) checked_calls then 0 else -1).
Proof.
  unfold main. rewrite run_exit_code, checked_calls_eq.
  unfold main_body. cbn [exit_of forallb status initial].
  rewrite !Z.ltb_antisym.
  repeat (destruct (0 <=? api_status e _); cbn [negb andb]; [|reflexivity]).
  reflexivity.
Qed.

(** ** C10: the inputs stay as initialised *)

Lemma offload_keeps_inputs e a :
  a = hA \/ a = hB ->
  Forall (fun st => writes_array e a st = false) (offload ++ report).
Proof. intros [-> | ->]; repeat constructor. Qed.

(** The state at a program point at or after the end of the
    initialisation loop. *)
Lemma state_after_split e k :
  (after_init <= k)%nat ->
  state_after e k
  = final_state (run_stmts e (take (k - after_init) (offload ++ report)) (initialised e)).
Proof.
  intros Hk. unfold state_after.
  replace k with (after_init + (k - after_init))%nat at 1 by lia.
  rewrite main_body_split at 1.
  rewrite take_app_add' by reflexivity.
  by rewrite run_app, run_prologue.
Qed.

(** C10. From the end of the initialisation loop on, at every program point
    of every run, each element of [A] and of [B] is 1; this also holds after
    any number of iterations of the output loop, and what that loop prints
    depends on [C] alone. *)
Theorem inputs_stay_ones (e : Env) :
  (forall k, (after_init <= k)%nat ->
     arrA (mem (state_after e k)) = replicate elements 1
     /\ arrB (mem (state_after e k)) = replicate elements 1)
  /\ (forall j,
        arrA (mem (print_loop j (state_after e before_output))) = replicate elements 1
        /\ arrB (mem (print_loop j (state_after e before_output))) = replicate elements 1)
  /\ (forall s s' n,
        arrC (mem s) = arrC (mem s') -> stdout s = stdout s' ->
        stdout (print_loop n s) = stdout (print_loop n s')).
Proof.
  assert (forall k, (after_init <= k)%nat ->
            arrA (mem (state_after e k)) = replicate elements 1
            /\ arrB (mem (state_after e k)) = replicate elements 1) as Hpoints.
  { intros k Hk. rewrite (state_after_split e k Hk).
    assert (forall a, quiet a (mem (initialised e))) as Hq.
    { intros a. cbn [initialised mem set_mem]. rewrite initialised_spec. constructor. }
    split.
    - rewrite (run_frame hA); [|apply Forall_take, offload_keeps_inputs; by left|apply Hq].
      cbn [initialised mem set_mem host]. by rewrite initialised_spec.
    - rewrite (run_frame hB); [|apply Forall_take, offload_keeps_inputs; by right|apply Hq].
      cbn [initialised mem set_mem host]. by rewrite initialised_spec. }
  split; [exact Hpoints |]. split.
  - intros j. unfold print_loop.
    destruct (print_iters_frame (seq 0 j) (state_after e before_output)) as (-> & _).
    apply Hpoints. unfold after_init, before_output. lia.
  - intros s s' n HC Hout. unfold print_loop.
    by rewrite !print_iters_stdout, HC, Hout.
Qed.

Lemma inputs_stay_ones_witness :
  arrA (mem (state_after env_ok 33)) = replicate elements 1
  /\ arrB (mem (state_after env_ok 33)) = replicate elements 1.
Proof.
  apply (proj1 (inputs_stay_ones env_ok) 33%nat).
  unfold after_init. lia.
Defined.

(** ** C2: the output lines *)

Lemma map_lookup_total_seq (l : list Z) :
  map (fun i => l !!! i) (seq 0 (length l)) = l.
Proof.
  apply list_eq. intros i. rewrite list_lookup_fmap.
  destruct (decide (i < length l)%nat) as [Hi | Hi].
  - rewrite lookup_seq_lt by done. cbn [fmap option_fmap option_map plus].
    symmetry. by apply list_lookup_lookup_total_lt.
  - rewrite lookup_seq_ge, lookup_ge_None_2 by lia. done.
Qed.

(** C2. A run that ends with exit code 0 has printed the seven progress
    lines and then, for each of the 2048 elements of [C] in index order, one
    line holding the decimal rendering of that element and a line feed, and
    nothing else. *)
Theorem output_of_successful_run (e : Env) :
  exit_code (main e) = Some 0 ->
  let s := final_state (main e) in
  length (arrC (mem s)) = 2048%nat
  /\ length (map output_line (arrC (mem s))) = 2048%nat
  /\ stdout s = progress_lines +:+ join (map output_line (arrC (mem s))).
Proof.
  intros (s1 & Hrun & ->)%successful_run. cbv zeta.
  unfold print_loop.
  destruct (print_iters_frame (seq 0 elements) s1) as (-> & _).
  assert (length (arrC (mem s1)) = elements) as Hlen.
  { pose proof (run_length hC e offload (initialised e) (initial_lengths e hC)) as Hl.
    by rewrite Hrun in Hl. }
  change 2048%nat with elements.
  split; [exact Hlen |]. split; [by rewrite length_map |].
  destruct (run_through _ _ _ _ Hrun) as [_ Hout].
  rewrite print_iters_stdout, Hout by (by repeat constructor).
  replace (map output_line (arrC (mem s1)))
    with (map (fun i => output_line (arrC (mem s1) !!! i)) (seq 0 elements)).
  - reflexivity.
  - by rewrite <-(map_map (fun i => arrC (mem s1) !!! i) output_line), <-Hlen,
               map_lookup_total_seq.
Qed.

Lemma output_of_successful_run_witness :
  let s := final_state (main env_ok) in
  length (arrC (mem s)) = 2048%nat
  /\ length (map output_line (arrC (mem s))) = 2048%nat
  /\ stdout s = progress_lines +:+ join (map output_line (arrC (mem s))).
Proof. apply (output_of_successful_run env_ok). reflexivity. Defined.

(** ** C8: buffers live inside the context *)

Definition buffer_flags (b : Buf) : MemFlags :=
  match b with bufC => CL_MEM_WRITE_ONLY | _ => CL_MEM_READ_ONLY end.

(** C8. In a run that ends with exit code 0 no call is made twice, and for
    each of the three buffers the calls come in this order: the context is
    created, the buffer is created, the buffer is released, the context is
    released. *)
Theorem buffer_lifetime_inside_context (e : Env) (b : Buf) :
  exit_code (main e) = Some 0 ->
  let t := trace (final_state (main e)) in
  NoDup t
  /\ exists i j k l : nat,
       position clCreateContext t = Some i
       /\ position (clCreateBuffer b (buffer_flags b) datasize) t = Some j
       /\ position (clReleaseMemObject b) t = Some k
       /\ position clReleaseContext t = Some l
       /\ (i < j)%nat /\ (j < k)%nat /\ (k < l)%nat.
Proof.
  intros Hrun. cbv zeta. rewrite (successful_run_trace e Hrun). split.
  - refine (bool_decide_unpack (NoDup (calls_of main_body)) _). vm_compute. exact I.
  - destruct b.
    + exists 2%nat, 4%nat, 20%nat, 23%nat. vm_compute. repeat split; lia.
    + exists 2%nat, 5%nat, 21%nat, 23%nat. vm_compute. repeat split; lia.
    + exists 2%nat, 6%nat, 22%nat, 23%nat. vm_compute. repeat split; lia.
Qed.

Lemma buffer_lifetime_inside_context_witness :
  let t := trace (final_state (main env_ok)) in
  NoDup t
  /\ exists i j k l : nat,
       position clCreateContext t = Some i
       /\ position (clCreateBuffer bufC (buffer_flags bufC) datasize) t = Some j
       /\ position (clReleaseMemObject bufC) t = Some k
       /\ position clReleaseContext t = Some l
       /\ (i < j)%nat /\ (j < k)%nat /\ (k < l)%nat.
Proof. apply (buffer_lifetime_inside_context env_ok bufC). reflexivity. Defined.

(** * Further definitions *)

(** What one statement does to the memory. *)
Definition mem_step (e : Env) (m : Memory) (st : Stmt) : Memory :=
  match st with
  | Malloc a => set_host a (uninit elements (host_garbage e a)) m
  | InitInputs => init_loop elements m
  | AssignCall c | Call c => after_call e c m
  | _ => m
  end.

(** The memory a piece of program leaves when nothing aborts it. *)
Definition mem_of (e : Env) (p : list Stmt) (m : Memory) : Memory :=
  foldl (mem_step e) m p.

(** Calls that change nothing in memory even when they succeed. *)
Definition inert (c : ApiCall) : bool :=
  match c with
  | clCreateBuffer _ _ _ | clEnqueueWriteBuffer _ _ _ _ | clSetKernelArg _ _
  | clEnqueueNDRangeKernel _ _ _ | clEnqueueReadBuffer _ _ _ _ => false
  | _ => true
  end.

(** The calls that move data: buffer creation, the two uploads, the
    argument bindings, the dispatch and the download. *)
Definition data_calls : list ApiCall :=
  filter (fun c => inert c = false) (calls_of main_body).

(** The download is refused with CL_OUT_OF_RESOURCES; every other call
    succeeds; untouched memory holds zeros. *)
Definition env_download_refused : Env :=
  mkEnv (fun c => match c with clEnqueueReadBuffer _ _ _ _ => -5 | _ => 0 end)
        (fun _ _ => 0) (fun _ _ => 0) (seq 0 elements).

(** The upload of [A] is refused with CL_OUT_OF_RESOURCES; every other call
    succeeds; untouched memory holds zeros. *)
Definition env_upload_refused : Env :=
  mkEnv (fun c => match c with clEnqueueWriteBuffer bufA _ _ _ => -5 | _ => 0 end)
        (fun _ _ => 0) (fun _ _ => 0) (seq 0 elements).

(** As [env_ok], but the program build fails with CL_BUILD_PROGRAM_FAILURE. *)
Definition env_build_fails : Env :=
  mkEnv (fun c => match c with clBuildProgram => -11 | _ => 0 end)
        (fun _ _ => 0) (fun _ _ => 0) (seq 0 elements).

(** The calls a piece of program makes, from the statuses alone; [r] is the
    value of [status] on entry. *)
Fixpoint trace_of (e : Env) (p : list Stmt) (r : Z) : list ApiCall :=
  match p with
  | [] => []
  | AssignCall c :: p' => c :: trace_of e p' (api_status e c)
  | Call c :: p' => c :: trace_of e p' r
  | Check :: p' => if r <? 0 then [] else trace_of e p' r
  | Return _ :: _ => []
  | _ :: p' => trace_of e p' r
  end.

(** The text a piece of program prints when a [check] stops it before the
    output loop. *)
Fixpoint abort_text (e : Env) (p : list Stmt) (r : Z) : option string :=
  match p with
  | [] => None
  | AssignCall c :: p' => abort_text e p' (api_status e c)
  | Printf t :: p' => String.append t <$> abort_text e p' r
  | Check :: p' =>
      if r <? 0 then Some ("ERROR. Exiting..." +:+ nl) else abort_text e p' r
  | PrintOutput :: _ => None
  | Return _ :: _ => None
  | _ :: p' => abort_text e p' r
  end.

(** The seven progress lines, in program order. *)
Definition progress_texts : list string := [
  "Create a program with source code" +:+ nl;
  "Build (compile) the program for the device" +:+ nl;
  "Create the vector addition kernel" +:+ nl;
  "Set the kernel arguments" +:+ nl;
  "Execute the kernel" +:+ nl;
  "The kernel has finished execution on the device" +:+ nl;
  "Read the device output buffer to the host output array" +:+ nl
].

Definition is_release (c : ApiCall) : bool :=
  match c with
  | clReleaseKernel | clReleaseProgram | clReleaseCommandQueue
  | clReleaseMemObject _ | clReleaseContext => true
  | _ => false
  end.

(** The handles the program creates and releases. *)
Inductive Handle :=
| h_context
| h_queue
| h_buffer (b : Buf)
| h_program
| h_kernel.

Global Instance Handle_eq_dec : EqDecision Handle.
Proof. solve_decision. Defined.

(** The handle a call creates (lines 71-79, 87, 97). *)
Definition creates (c : ApiCall) : option Handle :=
  match c with
  | clCreateContext => Some h_context
  | clCreateCommandQueueWithPropertiesAPPLE => Some h_queue
  | clCreateBuffer b _ _ => Some (h_buffer b)
  | clCreateProgramWithSource => Some h_program
  | clCreateKernel _ => Some h_kernel
  | _ => None
  end.

(** The handle a call releases (lines 127-133). *)
Definition releases (c : ApiCall) : option Handle :=
  match c with
  | clReleaseKernel => Some h_kernel
  | clReleaseProgram => Some h_program
  | clReleaseCommandQueue => Some h_queue
  | clReleaseMemObject b => Some (h_buffer b)
  | clReleaseContext => Some h_context
  | _ => None
  end.

(** The handles a call is passed, as the source writes its arguments. *)
Definition uses (c : ApiCall) : list Handle :=
  match c with
  | clCreateCommandQueueWithPropertiesAPPLE => [h_context]
  | clCreateBuffer _ _ _ => [h_context]
  | clEnqueueWriteBuffer b _ _ _ => [h_queue; h_buffer b]
  | clCreateProgramWithSource => [h_context]
  | clBuildProgram => [h_program]
  | clCreateKernel _ => [h_program]
  | clSetKernelArg _ b => [h_kernel; h_buffer b]
  | clEnqueueNDRangeKernel _ _ _ => [h_queue; h_kernel]
  | clEnqueueReadBuffer b _ _ _ => [h_queue; h_buffer b]
  | _ => []
  end.

(** The handles created and not yet released after a sequence of calls,
    given those that were so before it. *)
Definition live_after (live : list Handle) (t : list ApiCall) : list Handle :=
  foldl (fun live c =>
           option_list (creates c)
           ++ filter (fun h => releases c <> Some h) live)
        live t.

(** Every call of the sequence is passed, and releases, only handles that
    are created and not yet released when it is made. *)
Fixpoint handles_ok (live : list Handle) (t : list ApiCall) : bool :=
  match t with
  | [] => true
  | c :: t' =>
      forallb (fun h => bool_decide (h ∈ live)) (uses c ++ option_list (releases c))
      && handles_ok (live_after live [c]) t'
  end.

(** * Further lemmas *)

(** ** The memory along a run *)

Lemma exec_mem e st s s1 :
  exec e st s = Running s1 -> mem s1 = mem_step e (mem s) st.
Proof.
  destruct st as [a | | c | c | t | | | a | code]; cbn [exec mem_step api].
  - by intros <-%Running_inj.
  - by intros <-%Running_inj.
  - by intros <-%Running_inj.
  - by intros <-%Running_inj.
  - by intros <-%Running_inj.
  - unfold check. destruct (status s <? 0); [done |]. by intros <-%Running_inj.
  - intros <-%Running_inj. unfold print_loop.
    by destruct (print_iters_frame (seq 0 elements) s) as (-> & _).
  - by intros <-%Running_inj.
  - done.
Qed.

Lemma run_mem e p s s' :
  run_stmts e p s = Running s' -> mem s' = mem_of e p (mem s).
Proof.
  revert s. induction p as [|st p IH]; intros s.
  - by intros <-%Running_inj.
  - rewrite run_cons.
    destruct (exec e st s) as [s1 | code s1] eqn:Hst; [|done].
    apply exec_mem in Hst. intros ->%IH. by rewrite Hst.
Qed.

Lemma after_call_inert e c m : inert c = true -> after_call e c m = m.
Proof.
  intros Hc. unfold after_call. destruct (api_status e c <? 0); [done |].
  by destruct c.
Qed.

Lemma after_call_ok e c m : 0 <= api_status e c -> after_call e c m = effect e c m.
Proof.
  intros Hc. unfold after_call. by rewrite (proj2 (Z.ltb_ge (api_status e c) 0) Hc).
Qed.

Lemma after_call_failed e c m : api_status e c < 0 -> after_call e c m = m.
Proof.
  intros Hc. unfold after_call. by rewrite (proj2 (Z.ltb_lt (api_status e c) 0) Hc).
Qed.

(** ** The dispatch *)

Lemma length_foldl_insert (f : nat -> Z) (l : list nat) (C : list Z) :
  length (foldl (fun C i => <[i := f i]> C) C l) = length C.
Proof.
  revert C. induction l as [|i l IH]; intros C; simpl; [done |].
  by rewrite IH, length_insert.
Qed.

Lemma lookup_foldl_insert (f : nat -> Z) (l : list nat) (C : list Z) (j : nat) :
  (j < length C)%nat ->
  foldl (fun C i => <[i := f i]> C) C l !! j
  = if decide (j ∈ l) then Some (f j) else C !! j.
Proof.
  revert C. induction l as [|i l IH]; intros C Hj; cbn [foldl].
  - case_decide as Hin; [|done]. by apply elem_of_nil in Hin.
  - rewrite IH by (by rewrite length_insert).
    destruct (decide (j ∈ l)) as [Hin | Hnin].
    + case_decide as Hin'; [done |]. destruct Hin'. by apply list_elem_of_further.
    + destruct (decide (i = j)) as [-> | Hne].
      * case_decide as Hin'; [|destruct Hin'; apply list_elem_of_here].
        by apply list_lookup_insert_eq.
      * case_decide as Hin'.
        -- apply elem_of_cons in Hin' as [? | ?]; congruence.
        -- by apply list_lookup_insert_ne.
Qed.

(** With the three parameters bound to the three buffers, the work-items
    leave the inputs alone and each writes its own slot of the output. *)
Lemma run_kernel_steps (order : list nat) (A B C : list Z) :
  run_kernel order bufA bufB bufC (mkDevMem A B C)
  = mkDevMem A B (foldl (fun C i => <[i := add32 (A !!! i) (B !!! i)]> C) C order).
Proof.
  unfold run_kernel. revert C. induction order as [|i order IH]; intros C; simpl; [done |].
  apply IH.
Qed.

(** Whatever the order in which the device runs the work-items, a dispatch
    over [n] indices leaves the element-wise sum in the output buffer. *)
Lemma run_kernel_vecadd (order : list nat) (n : nat) (A B C : list Z) :
  order ≡ₚ seq 0 n ->
  length A = n -> length B = n -> length C = n ->
  run_kernel order bufA bufB bufC (mkDevMem A B C)
  = mkDevMem A B (zip_with add32 A B).
Proof.
  intros Hperm HA HB HC. rewrite run_kernel_steps. f_equal.
  apply list_eq. intros j.
  destruct (decide (j < n)%nat) as [Hj | Hj].
  - rewrite lookup_foldl_insert by lia.
    rewrite decide_True by (rewrite Hperm; apply elem_of_seq; lia).
    destruct (lookup_lt_is_Some_2 A j) as [a Ha]; [lia |].
    destruct (lookup_lt_is_Some_2 B j) as [b Hb]; [lia |].
    rewrite lookup_zip_with, Ha, Hb. cbn.
    by rewrite (list_lookup_total_correct _ _ _ Ha), (list_lookup_total_correct _ _ _ Hb).
  - rewrite !lookup_ge_None_2; [done | |].
    + rewrite length_zip_with. lia.
    + rewrite length_foldl_insert. lia.
Qed.

Lemma zip_with_add32_ones n :
  zip_with add32 (replicate n 1) (replicate n 1) = replicate n 2.
Proof. induction n as [|n IH]; [done |]. cbn [replicate zip_with]. by rewrite IH. Qed.

(** A transfer of a whole array. *)
Lemma copy_ints_full n (src dst : list Z) :
  length src = n -> length dst = n -> copy_ints n src dst = src.
Proof.
  intros Hs Hd. unfold copy_ints. rewrite take_ge by lia.
  rewrite <-(app_nil_r src) at 1. apply list_inserts_0_l. congruence.
Qed.

Lemma datasize_ints : (datasize / sizeof_int)%nat = elements.
Proof. unfold datasize, sizeof_int. rewrite Nat.mul_comm. by apply Nat.div_mul. Qed.

(** ** The offload when the runtime does its part *)

Lemma data_calls_eq :
  data_calls
  = [clCreateBuffer bufA CL_MEM_READ_ONLY datasize;
     clCreateBuffer bufB CL_MEM_READ_ONLY datasize;
     clCreateBuffer bufC CL_MEM_WRITE_ONLY datasize;
     clEnqueueWriteBuffer bufA false datasize hA;
     clEnqueueWriteBuffer bufB false datasize hB;
     clSetKernelArg 0 bufA; clSetKernelArg 1 bufB; clSetKernelArg 2 bufC;
     clEnqueueNDRangeKernel 1 indexSpaceSize workGroupSize;
     clEnqueueReadBuffer bufC true datasize hC].
Proof. reflexivity. Qed.

Ltac split_Forall H :=
  repeat match type of H with
         | Forall _ (_ :: _) =>
             let H1 := fresh "Hok" in
             apply Forall_cons in H as [H1 H]
         end.

Ltac settle_calls :=
  repeat first
    [ rewrite after_call_ok by assumption
    | rewrite after_call_failed by assumption
    | rewrite after_call_inert by reflexivity ].

(** Unfolds the offload on the initialised memory into the effects of the
    calls that took effect. *)
Ltac run_offload :=
  rewrite initialised_spec; unfold mem_of;
  change offload with (drop after_init (take before_output main_body));
  cbn [main_body take drop after_init before_output foldl mem_step];
  settle_calls;
  cbn [effect]; rewrite ?datasize_ints;
  cbn [enqueue finish run_cmd foldl app set_dmem set_kargs set_queue set_host host
       load store insert list_insert arrA arrB arrC dmem kargs queue memA memB memC].

(** When the calls that move data succeed, the offload leaves 2 in every
    element of [C], in whatever order the device ran the work-items. *)
Lemma offload_mem_ok e :
  Forall (fun c => 0 <= api_status e c) data_calls ->
  work_order e ≡ₚ seq 0 elements ->
  arrC (mem_of e offload (initialised_mem e)) = replicate elements 2.
Proof.
  intros Hok Hperm. rewrite data_calls_eq in Hok. split_Forall Hok.
  run_offload.
  rewrite !(copy_ints_full elements (replicate elements 1))
    by first [apply length_replicate | apply length_uninit].
  rewrite (run_kernel_vecadd _ elements)
    by first [assumption | apply length_replicate | apply length_uninit].
  cbn [memC]. rewrite zip_with_add32_ones.
  apply copy_ints_full; [apply length_replicate | apply length_uninit].
Qed.

(** When the upload of [A] is refused and the other calls that move data
    succeed, the kernel adds [B] to whatever the fresh buffer held. *)
Lemma offload_mem_upload_lost e :
  api_status e (clEnqueueWriteBuffer bufA false datasize hA) < 0 ->
  Forall (fun c => c <> clEnqueueWriteBuffer bufA false datasize hA -> 0 <= api_status e c)
         data_calls ->
  work_order e ≡ₚ seq 0 elements ->
  arrC (mem_of e offload (initialised_mem e))
  = zip_with add32 (uninit elements (dev_garbage e bufA)) (replicate elements 1).
Proof.
  intros Hfail Hok Hperm. rewrite data_calls_eq in Hok. split_Forall Hok.
  repeat match goal with
         | H : ?c <> ?c -> _ |- _ => clear H
         | H : _ <> _ -> _ |- _ => specialize (H ltac:(discriminate))
         end.
  run_offload.
  rewrite !(copy_ints_full elements (replicate elements 1))
    by first [apply length_replicate | apply length_uninit].
  rewrite (run_kernel_vecadd _ elements)
    by first [assumption | apply length_replicate | apply length_uninit].
  cbn [memC].
  apply copy_ints_full; [|apply length_uninit].
  rewrite length_zip_with, length_uninit, length_replicate. lia.
Qed.

(** The memory at the end of a run that ends with exit code 0. *)
Lemma successful_run_mem_of e :
  exit_code (main e) = Some 0 ->
  mem (final_state (main e)) = mem_of e offload (initialised_mem e).
Proof.
  intros Hexit. rewrite (successful_run_mem e Hexit).
  destruct (successful_run e Hexit) as (s1 & Hrun & _).
  rewrite Hrun. cbn [final_state]. by rewrite (run_mem _ _ _ _ Hrun).
Qed.

(** In every run in which the calls that move data succeed and that ends
    with exit code 0, every element of [C] is 2. *)
Lemma sum_when_calls_succeed e :
  exit_code (main e) = Some 0 ->
  Forall (fun c => 0 <= api_status e c) data_calls ->
  work_order e ≡ₚ seq 0 elements ->
  arrC (mem (final_state (main e))) = replicate elements 2.
Proof.
  intros Hexit Hok Hperm. rewrite (successful_run_mem_of e Hexit).
  by apply offload_mem_ok.
Qed.

Lemma main_after_prologue e :
  main e = run_stmts e (offload ++ report) (initialised e).
Proof. unfold main. rewrite main_body_split, run_app, run_prologue. reflexivity. Qed.

Lemma host_hC m : host hC m = arrC m.
Proof. reflexivity. Qed.

(** When the download is refused, [C] keeps what [malloc] left in it,
    however the run ends. *)
Lemma no_download_no_result e :
  api_status e (clEnqueueReadBuffer bufC true datasize hC) < 0 ->
  arrC (mem (final_state (main e))) = uninit elements (host_garbage e hC).
Proof.
  intros Hfail.
  assert (Forall (fun st => writes_array e hC st = false) (offload ++ report)) as Hw.
  { repeat (constructor;
      [first [reflexivity
             | cbn [writes_array]; rewrite (proj2 (Z.ltb_lt _ 0) Hfail); reflexivity] |]).
    constructor. }
  assert (quiet hC (mem (initialised e))) as Hq.
  { cbn [initialised mem set_mem]. rewrite initialised_spec. constructor. }
  rewrite main_after_prologue, <-host_hC.
  rewrite (run_frame hC e (offload ++ report) (initialised e) Hw Hq), host_hC.
  cbn [initialised mem set_mem]. rewrite initialised_spec. reflexivity.
Qed.

(** The exit code of a run, from the statuses of the five checked calls. *)
Lemma main_exit_code (e : Env) :
  exit_code (main e)
  = Some (if forallb (fun c => 0 <=? api_status e c) checked_calls then 0 else -1).
Proof.
  unfold main. rewrite run_exit_code, checked_calls_eq.
  unfold main_body. cbn [exit_of forallb status initial].
  rewrite !Z.ltb_antisym.
  repeat (destruct (0 <=? api_status e _); cbn [negb andb]; [|reflexivity]).
  reflexivity.
Qed.

(** What a run that ends with exit code 0 has printed. *)
Lemma successful_run_output (e : Env) :
  exit_code (main e) = Some 0 ->
  length (arrC (mem (final_state (main e)))) = elements
  /\ stdout (final_state (main e))
     = progress_lines +:+ join (map output_line (arrC (mem (final_state (main e))))).
Proof.
  intros (s1 & Hrun & ->)%successful_run.
  unfold print_loop.
  destruct (print_iters_frame (seq 0 elements) s1) as (-> & _).
  assert (length (arrC (mem s1)) = elements) as Hlen.
  { pose proof (run_length hC e offload (initialised e) (initial_lengths e hC)) as Hl.
    rewrite Hrun in Hl. exact Hl. }
  split; [exact Hlen |].
  destruct (run_through _ _ _ _ Hrun) as [_ Hout].
  rewrite print_iters_stdout, Hout by (by repeat constructor).
  replace (map output_line (arrC (mem s1)))
    with (map (fun i => output_line (arrC (mem s1) !!! i)) (seq 0 elements)).
  - reflexivity.
  - by rewrite <-(map_map (fun i => arrC (mem s1) !!! i) output_line), <-Hlen,
               map_lookup_total_seq.
Qed.

(** What the runs print in which the calls that move data succeed. *)
Lemma output_when_calls_succeed (e : Env) :
  exit_code (main e) = Some 0 ->
  Forall (fun c => 0 <= api_status e c) data_calls ->
  work_order e ≡ₚ seq 0 elements ->
  stdout (final_state (main e))
  = progress_lines +:+ join (map output_line (replicate elements 2)).
Proof.
  intros Hexit Hok Hperm.
  destruct (successful_run_output e Hexit) as [_ ->].
  by rewrite (sum_when_calls_succeed e Hexit Hok Hperm).
Qed.

(** ** The work-groups of a dispatch *)

Lemma concat_work_groups (m l : nat) :
  concat (map (fun g => seq (g * l) l) (seq 0 m)) = seq 0 (m * l).
Proof.
  induction m as [|m IH]; [done |].
  rewrite seq_S, map_app, concat_app, IH. cbn [map concat plus].
  rewrite app_nil_r.
  replace (S m * l)%nat with (m * l + l)%nat by lia.
  by rewrite seq_app.
Qed.

Lemma work_groups_partition (global local : nat) :
  (local | global)%nat -> (0 < local)%nat ->
  concat (work_groups global local) = seq 0 global
  /\ length (work_groups global local) = (global / local)%nat
  /\ Forall (fun g => length g = local) (work_groups global local).
Proof.
  intros [m ->] Hl. unfold work_groups.
  rewrite Nat.div_mul by lia. split; [apply concat_work_groups |]. split.
  - by rewrite length_map, length_seq.
  - apply Forall_forall. intros g [k [-> _]]%list_elem_of_fmap. apply length_seq.
Qed.

(** ** What the statuses alone decide *)

Lemma run_trace e p s :
  trace (final_state (run_stmts e p s)) = trace s ++ trace_of e p (status s).
Proof.
  revert s. induction p as [|st p IH]; intros s.
  - cbn [run_stmts final_state trace_of]. by rewrite app_nil_r.
  - rewrite run_cons.
    destruct st as [a | | c | c | t | | | a | code]; cbn [exec trace_of api].
    + by rewrite IH.
    + by rewrite IH.
    + rewrite IH. cbn [trace status set_status]. by rewrite <-(assoc_L app).
    + rewrite IH. unfold api. cbn [trace status snd]. by rewrite <-(assoc_L app).
    + by rewrite IH.
    + unfold check. destruct (status s <? 0); [|apply IH].
      cbn [final_state trace printf]. by rewrite app_nil_r.
    + rewrite IH. unfold print_loop.
      by destruct (print_iters_frame (seq 0 elements) s) as (_ & -> & ->).
    + by rewrite IH.
    + cbn [final_state]. by rewrite app_nil_r.
Qed.

Lemma run_abort_text e p s t :
  abort_text e p (status s) = Some t ->
  stdout (final_state (run_stmts e p s)) = stdout s +:+ t.
Proof.
  revert s t. induction p as [|st p IH]; intros s t; [done |].
  rewrite run_cons.
  destruct st as [a | | c | c | tx | | | a | code]; cbn [exec abort_text api].
  - intros Ht. erewrite IH by exact Ht. reflexivity.
  - intros Ht. erewrite IH by exact Ht. reflexivity.
  - intros Ht. erewrite IH by exact Ht. reflexivity.
  - intros Ht. erewrite IH by exact Ht. reflexivity.
  - destruct (abort_text e p (status s)) as [t'|] eqn:Ht'; [|done].
    intros [= <-]. erewrite IH by exact Ht'.
    cbn [stdout printf]. by rewrite append_assoc.
  - unfold check. destruct (status s <? 0); [by intros [= <-] | apply IH].
  - done.
  - intros Ht. erewrite IH by exact Ht. reflexivity.
  - done.
Qed.

(** * Further properties *)

(** ** The kernel *)

(** X1. A dispatch over [n] indices, with the three parameters bound to the
    three buffers of [n] ints each, leaves the two inputs as they were and
    the element-wise 32-bit sum in the output, in whatever order the device
    runs the work-items. *)
Theorem kernel_sum_in_any_order (order : list nat) (n : nat) (A B C : list Z) :
  order ≡ₚ seq 0 n ->
  length A = n -> length B = n -> length C = n ->
  run_kernel order bufA bufB bufC (mkDevMem A B C)
  = mkDevMem A B (zip_with add32 A B).
Proof. apply run_kernel_vecadd. Qed.

Lemma kernel_sum_in_any_order_witness :
  run_kernel [1; 0; 2]%nat bufA bufB bufC (mkDevMem [1; 2; 3] [10; 20; 30] [7; 7; 7])
  = mkDevMem [1; 2; 3] [10; 20; 30] (zip_with add32 [1; 2; 3] [10; 20; 30]).
Proof.
  apply (kernel_sum_in_any_order [1; 0; 2]%nat 3 [1; 2; 3] [10; 20; 30] [7; 7; 7]).
  - apply perm_swap.
  - reflexivity.
  - reflexivity.
  - reflexivity.
Defined.

(** X2. Two work-items with different indices can run in either order:
    when the output parameter is bound to a buffer other than the two
    inputs, running [i] then [j] leaves the device memory that running [j]
    then [i] leaves. *)
Theorem work_items_commute (a0 a1 a2 : Buf) (m : DevMem) (i j : nat) :
  a2 <> a0 -> a2 <> a1 -> i <> j ->
  work_item a0 a1 a2 (work_item a0 a1 a2 m i) j
  = work_item a0 a1 a2 (work_item a0 a1 a2 m j) i.
Proof.
  intros H0 H1 Hij. destruct m as [mA mB mC].
  destruct a0, a1, a2; try done;
    unfold work_item, vecadd; cbn [load store memA memB memC];
    f_equal; apply list_insert_insert_ne; congruence.
Qed.

Lemma work_items_commute_witness :
  work_item bufA bufB bufC
    (work_item bufA bufB bufC (mkDevMem [1; 2] [10; 20] [0; 0]) 0) 1
  = work_item bufA bufB bufC
      (work_item bufA bufB bufC (mkDevMem [1; 2] [10; 20] [0; 0]) 1) 0.
Proof.
  apply (work_items_commute bufA bufB bufC (mkDevMem [1; 2] [10; 20] [0; 0]) 0 1);
    discriminate.
Defined.

Lemma add32_exact (a b : Z) :
  - 2 ^ 31 <= a + b < 2 ^ 31 -> add32 a b = a + b.
Proof.
  intros H. unfold add32, wrap32.
  rewrite Z.mod_small by lia. lia.
Qed.

(** X3. After a dispatch, an output element whose two inputs have a sum
    that fits in 32 bits holds exactly that sum. *)
Theorem kernel_sum_exact (order : list nat) (n : nat) (A B C : list Z)
    (i : nat) (a b : Z) :
  order ≡ₚ seq 0 n ->
  length A = n -> length B = n -> length C = n ->
  A !! i = Some a -> B !! i = Some b ->
  - 2 ^ 31 <= a + b < 2 ^ 31 ->
  memC (run_kernel order bufA bufB bufC (mkDevMem A B C)) !! i = Some (a + b).
Proof.
  intros Hperm HA HB HC Ha Hb Hfit.
  rewrite (run_kernel_vecadd order n) by assumption.
  cbn [memC]. rewrite lookup_zip_with, Ha, Hb. cbn.
  by rewrite add32_exact.
Qed.

Lemma kernel_sum_exact_witness :
  memC (run_kernel [1; 0; 2]%nat bufA bufB bufC
          (mkDevMem [1; 2; 3] [10; 20; 30] [7; 7; 7])) !! 1%nat
  = Some (2 + 20).
Proof.
  apply (kernel_sum_exact [1; 0; 2]%nat 3 [1; 2; 3] [10; 20; 30] [7; 7; 7] 1 2 20).
  - apply perm_swap.
  - reflexivity.
  - reflexivity.
  - reflexivity.
  - reflexivity.
  - reflexivity.
  - lia.
Defined.

(** ** The initialisation loop *)

(** X4. Run over two arrays of [n] ints, the loop of lines 54-57 leaves 1 in
    every element of both and changes nothing else: not [C], not the
    device. *)
Theorem init_loop_fills_inputs (n : nat) (m : Memory) :
  length (arrA m) = n -> length (arrB m) = n ->
  init_loop n m
  = mkMemory (replicate n 1) (replicate n 1) (arrC m) (dmem m) (kargs m) (queue m).
Proof.
  intros HA HB.
  destruct (init_loop_spec n m HA HB) as [HA' HB'].
  destruct (init_iters_frame (seq 0 n) m) as (HC & Hd & Hk & Hq).
  fold (init_loop n m) in HC, Hd, Hk, Hq.
  destruct (init_loop n m) as [a b c d k q].
  cbn [arrA arrB arrC dmem kargs queue] in *. by subst.
Qed.

Lemma init_loop_fills_inputs_witness :
  init_loop 3 (mkMemory [5; 6; 7] [8; 9; 10] [4; 4; 4] (mkDevMem [] [] []) [None] [])
  = mkMemory (replicate 3 1) (replicate 3 1) [4; 4; 4] (mkDevMem [] [] []) [None] [].
Proof.
  apply (init_loop_fills_inputs 3
           (mkMemory [5; 6; 7] [8; 9; 10] [4; 4; 4] (mkDevMem [] [] []) [None] []));
    reflexivity.
Defined.

(** ** The whole run *)

Lemma all_nonnegative (e : Env) (l : list ApiCall) :
  forallb (fun c => 0 <=? api_status e c) l = true <->
  Forall (fun c => 0 <= api_status e c) l.
Proof.
  induction l as [|c l IH]; cbn [forallb].
  - split; [constructor | done].
  - rewrite andb_true_iff, IH, Forall_cons. by rewrite Z.leb_le.
Qed.

(** X5. When the five checked calls and the ten calls that move data all
    report success, and the device runs each work-item once, the run ends
    with exit code 0, [C] holds 2 in each of its 2048 elements, and the text
    printed is the seven progress lines followed by 2048 lines of 2. *)
Theorem sum_of_ones_is_two (e : Env) :
  Forall (fun c => 0 <= api_status e c) checked_calls ->
  Forall (fun c => 0 <= api_status e c) data_calls ->
  work_order e ≡ₚ seq 0 elements ->
  exit_code (main e) = Some 0
  /\ arrC (mem (final_state (main e))) = replicate 2048 2
  /\ stdout (final_state (main e))
     = progress_lines +:+ join (replicate 2048 (output_line 2)).
Proof.
  intros Hchecked Hdata Hperm.
  assert (exit_code (main e) = Some 0) as Hexit.
  { rewrite main_exit_code. by rewrite (proj2 (all_nonnegative e checked_calls) Hchecked). }
  change 2048%nat with elements.
  split; [exact Hexit |]. split.
  - by apply sum_when_calls_succeed.
  - rewrite (output_when_calls_succeed e Hexit Hdata Hperm).
    by rewrite <-fmap_replicate.
Qed.

Lemma sum_of_ones_is_two_witness :
  exit_code (main env_ok) = Some 0
  /\ arrC (mem (final_state (main env_ok))) = replicate 2048 2
  /\ stdout (final_state (main env_ok))
     = progress_lines +:+ join (replicate 2048 (output_line 2)).
Proof.
  apply (sum_of_ones_is_two env_ok).
  - apply all_nonnegative. reflexivity.
  - apply all_nonnegative. reflexivity.
  - reflexivity.
Defined.

(** ** Runs that a [check] stops *)

Lemma main_trace (e : Env) :
  trace (final_state (main e)) = trace_of e main_body 0.
Proof. unfold main. by rewrite run_trace. Qed.

Lemma main_abort_text (e : Env) (t : string) :
  abort_text e main_body 0 = Some t -> stdout (final_state (main e)) = t.
Proof. intros Ht. unfold main. by rewrite (run_abort_text e main_body initial t Ht). Qed.

Ltac settle_checks :=
  repeat match goal with
         | H : 0 <= ?r |- context [?r <? 0] =>
             rewrite (proj2 (Z.ltb_ge r 0) H)
         | H : ?r < 0 |- context [?r <? 0] =>
             rewrite (proj2 (Z.ltb_lt r 0) H)
         end.

(** X6. When a checked call reports a negative status and the checked
    calls before it did not, the run ends with exit code -1 right after that
    call: the calls made are an initial segment of the program's calls that
    ends with it, and the text printed is the progress lines up to it
    followed by the error line. *)
Theorem abort_at_first_failed_check (e : Env) (k : nat) (c : ApiCall) :
  checked_calls !! k = Some c ->
  Forall (fun c' => 0 <= api_status e c') (take k checked_calls) ->
  api_status e c < 0 ->
  exit_code (main e) = Some (-1)
  /\ trace (final_state (main e)) `prefix_of` calls_of main_body
  /\ last (trace (final_state (main e))) = Some c
  /\ stdout (final_state (main e))
     = join (take (S k) progress_texts) +:+ ("ERROR. Exiting..." +:+ nl).
Proof.
  intros Hk Hbefore Hneg. rewrite checked_calls_eq in Hk, Hbefore.
  unfold main at 1. rewrite main_trace, run_exit_code.
  destruct k as [|[|[|[|[|k]]]]]; cbn [lookup list_lookup take] in Hk, Hbefore;
    [injection Hk as <- ..|discriminate Hk];
    split_Forall Hbefore;
    (split; [|split; [|split]]).
  all: try (unfold main_body; cbn [exit_of trace_of status initial];
            settle_checks; reflexivity).
  all: try (unfold main_body; cbn [trace_of]; settle_checks;
            eexists; reflexivity).
  all: apply main_abort_text; unfold main_body; cbn [abort_text];
       settle_checks; reflexivity.
Qed.

Lemma abort_at_first_failed_check_witness :
  exit_code (main env_build_fails) = Some (-1)
  /\ trace (final_state (main env_build_fails)) `prefix_of` calls_of main_body
  /\ last (trace (final_state (main env_build_fails))) = Some clBuildProgram
  /\ stdout (final_state (main env_build_fails))
     = join (take 2 progress_texts) +:+ ("ERROR. Exiting..." +:+ nl).
Proof.
  apply (abort_at_first_failed_check env_build_fails 1 clBuildProgram).
  - reflexivity.
  - apply all_nonnegative. reflexivity.
  - reflexivity.
Defined.

(** X7. A run that ends with exit code -1 has made none of the seven
    release calls and not the download: the calls it made are an initial
    segment of the first sixteen calls of the program. *)
Theorem aborted_run_releases_nothing (e : Env) :
  exit_code (main e) = Some (-1) ->
  trace (final_state (main e)) `prefix_of` take 16 (calls_of main_body)
  /\ Forall (fun c => is_release c = false) (trace (final_state (main e))).
Proof.
  unfold main at 1. rewrite main_trace, run_exit_code.
  unfold main_body. cbn [exit_of trace_of status initial].
  repeat (destruct (api_status e _ <? 0);
          [intros _; split; [eexists; reflexivity | repeat constructor] |]).
  discriminate.
Qed.

Lemma aborted_run_releases_nothing_witness :
  trace (final_state (main env_build_fails)) `prefix_of` take 16 (calls_of main_body)
  /\ Forall (fun c => is_release c = false) (trace (final_state (main env_build_fails))).
Proof. apply (aborted_run_releases_nothing env_build_fails). reflexivity. Defined.

(** ** Failures that no [check] sees *)

(** X8. When the download reports an error, [C] holds at the end of the run
    what [malloc] left in it, however the run ends. *)
Theorem refused_download_leaves_C_unwritten (e : Env) :
  api_status e (clEnqueueReadBuffer bufC true datasize hC) < 0 ->
  arrC (mem (final_state (main e))) = uninit elements (host_garbage e hC).
Proof. apply no_download_no_result. Qed.

Lemma refused_download_leaves_C_unwritten_witness :
  arrC (mem (final_state (main env_download_refused)))
  = uninit elements (host_garbage env_download_refused hC).
Proof. apply (refused_download_leaves_C_unwritten env_download_refused). reflexivity. Defined.

(** X9. When the upload of [A] reports an error and the other calls that
    move data and the checked calls succeed, the run still ends with exit
    code 0, and each element of [C] is 1 added to what the fresh device
    buffer held at that index. *)
Theorem refused_upload_adds_to_garbage (e : Env) :
  api_status e (clEnqueueWriteBuffer bufA false datasize hA) < 0 ->
  Forall (fun c => 0 <= api_status e c) checked_calls ->
  Forall (fun c => c <> clEnqueueWriteBuffer bufA false datasize hA -> 0 <= api_status e c)
         data_calls ->
  work_order e ≡ₚ seq 0 elements ->
  exit_code (main e) = Some 0
  /\ arrC (mem (final_state (main e)))
     = zip_with add32 (uninit elements (dev_garbage e bufA)) (replicate elements 1).
Proof.
  intros Hfail Hchecked Hdata Hperm.
  assert (exit_code (main e) = Some 0) as Hexit.
  { rewrite main_exit_code. by rewrite (proj2 (all_nonnegative e checked_calls) Hchecked). }
  split; [exact Hexit |].
  rewrite (successful_run_mem_of e Hexit). by apply offload_mem_upload_lost.
Qed.

Lemma refused_upload_adds_to_garbage_witness :
  exit_code (main env_upload_refused) = Some 0
  /\ arrC (mem (final_state (main env_upload_refused)))
     = zip_with add32 (uninit elements (dev_garbage env_upload_refused bufA))
         (replicate elements 1).
Proof.
  apply (refused_upload_adds_to_garbage env_upload_refused).
  - reflexivity.
  - apply all_nonnegative. reflexivity.
  - rewrite data_calls_eq.
    repeat (constructor;
      [intros Hne;
       first [cbn [api_status env_upload_refused]; lia
             | exfalso; apply Hne; reflexivity] |]).
    constructor.
  - reflexivity.
Defined.

(** X10. The statuses of the calls that no [check] follows decide neither
    the exit code nor which calls are made: two runs whose five checked
    calls report the same statuses end with the same exit code after the
    same calls. *)
Theorem unchecked_statuses_do_not_matter (e e' : Env) :
  Forall (fun c => api_status e c = api_status e' c) checked_calls ->
  exit_code (main e) = exit_code (main e')
  /\ trace (final_state (main e)) = trace (final_state (main e')).
Proof.
  intros Hsame. rewrite checked_calls_eq in Hsame. split_Forall Hsame.
  unfold main at 1 2. rewrite !main_trace, !run_exit_code.
  unfold main_body. cbn [exit_of trace_of status initial].
  repeat match goal with H : api_status e _ = _ |- _ => rewrite H; clear H end.
  split; reflexivity.
Qed.

Lemma unchecked_statuses_do_not_matter_witness :
  exit_code (main env_ok) = exit_code (main env_download_refused)
  /\ trace (final_state (main env_ok)) = trace (final_state (main env_download_refused)).
Proof.
  apply (unchecked_statuses_do_not_matter env_ok env_download_refused).
  rewrite checked_calls_eq. repeat constructor.
Defined.

(** ** The dispatch *)

Lemma trace_of_prefix (e : Env) (p : list Stmt) (r : Z) :
  trace_of e p r `prefix_of` calls_of p.
Proof.
  revert r. induction p as [|st p IH]; intros r; [done |].
  destruct st; cbn [trace_of calls_of]; try apply IH.
  - by apply prefix_cons.
  - by apply prefix_cons.
  - destruct (r <? 0); [apply prefix_nil | apply IH].
  - apply prefix_nil.
Qed.

(** X11. Whatever the run, every dispatch it makes is one-dimensional with
    a work-group size that divides the size of the index space; its
    work-groups number 8, have 256 indices each, and together hold every
    index of the space once, in order. *)
Theorem dispatches_are_well_formed (e : Env) :
  Forall (fun c =>
            match c with
            | clEnqueueNDRangeKernel work_dim global local =>
                work_dim = 1%nat
                /\ (local | global)%nat
                /\ length (work_groups global local) = 8%nat
                /\ Forall (fun g => length g = 256%nat) (work_groups global local)
                /\ concat (work_groups global local) = seq 0 global
            | _ => True
            end)
         (trace (final_state (main e))).
Proof.
  assert ((workGroupSize | indexSpaceSize)%nat) as Hdiv by (exists 8%nat; reflexivity).
  destruct (work_groups_partition indexSpaceSize workGroupSize Hdiv)
    as (Hcat & Hlen & Hall); [unfold workGroupSize; lia |].
  assert ((indexSpaceSize / workGroupSize)%nat = 8%nat) as H8 by reflexivity.
  rewrite H8 in Hlen.
  rewrite main_trace.
  destruct (trace_of_prefix e main_body 0) as [rest Hrest].
  assert (Forall (fun c =>
            match c with
            | clEnqueueNDRangeKernel work_dim global local =>
                work_dim = 1%nat
                /\ (local | global)%nat
                /\ length (work_groups global local) = 8%nat
                /\ Forall (fun g => length g = 256%nat) (work_groups global local)
                /\ concat (work_groups global local) = seq 0 global
            | _ => True
            end) (calls_of main_body)) as Hall_calls.
  { unfold main_body. cbn [calls_of].
    repeat (constructor;
      [first [exact I
             | exact (conj eq_refl (conj Hdiv (conj Hlen (conj Hall Hcat))))] |]).
    constructor. }
  rewrite Hrest in Hall_calls. by apply Forall_app in Hall_calls as [? _].
Qed.

(** ** Handles *)

(** X12. Whatever the run, no call is passed a handle before the call that
    creates it or after the call that releases it, and no handle is released
    twice.  A run that ends with exit code 0 has released every handle it
    created; a run that ends with exit code -1 has not released the
    context. *)
Theorem handles_used_within_lifetime (e : Env) :
  handles_ok [] (trace (final_state (main e))) = true
  /\ (exit_code (main e) = Some 0 ->
      live_after [] (trace (final_state (main e))) = [])
  /\ (exit_code (main e) = Some (-1) ->
      h_context ∈ live_after [] (trace (final_state (main e)))).
Proof.
  unfold main at 2 4. rewrite main_trace, run_exit_code.
  unfold main_body. cbn [exit_of trace_of status initial].
  repeat (destruct (api_status e _ <? 0);
          [split; [vm_compute; reflexivity |];
           split; [discriminate |];
           intros _; apply (bool_decide_unpack _); vm_compute; exact I |]).
  split; [vm_compute; reflexivity |].
  split; [intros _; vm_compute; reflexivity | discriminate].
Qed.

Lemma handles_used_within_lifetime_witness :
  live_after [] (trace (final_state (main env_ok))) = []
  /\ h_context ∈ live_after [] (trace (final_state (main env_build_fails))).
Proof.
  split.
  - apply (proj1 (proj2 (handles_used_within_lifetime env_ok))). reflexivity.
  - apply (proj2 (proj2 (handles_used_within_lifetime env_build_fails))). reflexivity.
Defined.
